(** * Met lightning geo-location events: the reconciliation cycle

    A shallow embedding of [homeassistant/components/met/geo_location.py]:
    the setup entry point, the [MetLightningEventManager] that polls the
    provider and reconciles the set of managed strike ids, and the
    [MetLightningEvent] record built for every new strike.

    Python objects are modelled as follows.
    - A [dict] is a [gmap] with string keys, a [set] of ids a [gset string].
    - Python numbers are [Z] (int) and binary64 [float] (float).
    - The manager's attributes are a record that is threaded through a small
      state, trace and exception monad; every call to a collaborator of the
      host (logger, provider client, dispatcher, entity registrar, timer)
      appends one [effect] to the trace.
    - The answer of the awaited provider call is an input of the cycle. *)

From Stdlib Require Import Floats.PrimFloat.
From Stdlib Require Floats.SpecFloat Floats.FloatOps.
From Stdlib Require Import ZArith.
From stdpp Require Import gmap strings list fin_maps.

Open Scope Z_scope.

(** Decimal literals such as [12.345] denote the nearest binary64 value,
    as they do in Python. *)
Set Warnings "-inexact-float".

Abbreviation float := PrimFloat.float.

(** ** Python values, exceptions and the operators the module uses *)

(** The values a provider response can carry in a strike's fields. *)
Inductive value : Type :=
  | VNone
  | VInt (z : Z)
  | VFloat (f : float)
  | VStr (s : string).

Inductive exn : Type :=
  | KeyError (key : string)
  | TypeError
  | OverflowError
  | ProviderError (msg : string).

Inductive outcome (A : Type) : Type :=
  | Return (a : A)
  | Raise (e : exn).
Arguments Return {A} a.
Arguments Raise {A} e.

(** [d[key]]: a missing key raises [KeyError]. *)
Definition getitem {V : Type} (d : gmap string V) (key : string) : outcome V :=
  match d !! key with
  | Some v => Return v
  | None => Raise (KeyError key)
  end.

(** [float(z)] for a Python int: the nearest binary64 value, ties to even;
    an int that rounds beyond the largest finite float raises. *)
Definition int_to_float (z : Z) : outcome float :=
  let f := FloatOps.SF2Prim
             (SpecFloat.binary_normalize FloatOps.prec FloatOps.emax z 0 false) in
  if PrimFloat.is_infinity f then Raise OverflowError else Return f.

(** [x / y] with [y] a float: true division after converting an int
    operand; [None] and strings have no such operator. A zero divisor
    raises in Python; the only divisor of this module is [1000.0]. *)
Definition truediv (x : value) (y : float) : outcome float :=
  match x with
  | VInt z =>
      match int_to_float z with
      | Return f => Return (PrimFloat.div f y)
      | Raise e => Raise e
      end
  | VFloat f => Return (PrimFloat.div f y)
  | VNone | VStr _ => Raise TypeError
  end.

(** ** Module constants *)

Definition DEFAULT_EVENT_NAME (strike_id : string) : string :=
  "Lightning Strike: " +:+ strike_id.
Definition DEFAULT_ICON : string := "mdi:flash".
Definition ATTRIBUTION : string := "Data provided by Met.no".
(** [timedelta(minutes=5)], in minutes. *)
Definition DEFAULT_UPDATE_INTERVAL : Z := 5.
Definition SIGNAL_DELETE_ENTITY (strike_id : string) : string :=
  "delete_entity_" +:+ strike_id.

(** ** class MetLightningEvent *)

Module MetLightningEvent.

Record t : Type := mk {
  _distance : float;
  _latitude : value;
  _longitude : value;
  _publication_date : value;
  _remove_signal_delete : option string;
  _strike_id : string
}.

Definition __init__ (distance : float) (latitude longitude : value)
    (strike_id : string) (publication_date : value) : t :=
  {| _distance := distance;
     _latitude := latitude;
     _longitude := longitude;
     _publication_date := publication_date;
     _remove_signal_delete := None;
     _strike_id := strike_id |}.

Definition distance (self : t) : float := _distance self.
Definition latitude (self : t) : value := _latitude self.
Definition longitude (self : t) : value := _longitude self.
Definition name (self : t) : string := DEFAULT_EVENT_NAME (_strike_id self).
Definition icon (self : t) : string := DEFAULT_ICON.
Definition should_poll (self : t) : bool := false.

End MetLightningEvent.

(** ** The host's collaborators, as a trace of calls *)

Inductive log_record : Type :=
  | Refreshing
  | GoingToCreate (ids : gset string)
  | GoingToRemove (ids : gset string).

Inductive effect : Type :=
  | Debug (r : log_record)
  | WithinRadius (latitude longitude : float) (radius : Z)
  | DispatcherSend (signal : string)
  | AddEntities (events : list MetLightningEvent.t)
  | TrackTimeInterval (interval : Z).

(** A strike of a provider response, and a whole response. *)
Abbreviation strike := (gmap string value).
Abbreviation snapshot := (gmap string (gmap string value)).

(** What the awaited [within_radius] call does: it returns a mapping from
    strike id to strike, or it raises. *)
Inductive fetch_result : Type :=
  | Fetched (strikes : snapshot)
  | FetchFailed (e : exn).

(** ** class MetLightningEventManager *)

Module MetLightningEventManager.

Record t : Type := mk {
  _latitude : float;
  _longitude : float;
  _managed_strike_ids : gset string;
  _radius : Z;
  _strikes : snapshot
}.

Definition __init__ (latitude longitude : float) (radius : Z) : t :=
  {| _latitude := latitude;
     _longitude := longitude;
     _managed_strike_ids := ∅;
     _radius := radius;
     _strikes := ∅ |}.

Definition set_strikes (s : snapshot) (self : t) : t :=
  {| _latitude := _latitude self;
     _longitude := _longitude self;
     _managed_strike_ids := _managed_strike_ids self;
     _radius := _radius self;
     _strikes := s |}.

Definition set_managed_strike_ids (ids : gset string) (self : t) : t :=
  {| _latitude := _latitude self;
     _longitude := _longitude self;
     _managed_strike_ids := ids;
     _radius := _radius self;
     _strikes := _strikes self |}.

(** *** Methods run in a monad over [self], the trace and exceptions *)

Definition M (A : Type) : Type := t -> t * list effect * outcome A.

Definition ret {A : Type} (a : A) : M A := fun self => (self, [], Return a).

Definition bind {A B : Type} (c : M A) (k : A -> M B) : M B :=
  fun self =>
    let '(self1, tr1, r) := c self in
    match r with
    | Return a =>
        let '(self2, tr2, r2) := k a self1 in (self2, tr1 ++ tr2, r2)
    | Raise e => (self1, tr1, Raise e)
    end.

Definition raise {A : Type} (e : exn) : M A := fun self => (self, [], Raise e).
Definition emit (ev : effect) : M unit := fun self => (self, [ev], Return tt).
Definition get : M t := fun self => (self, [], Return self).
Definition modify (f : t -> t) : M unit := fun self => (f self, [], Return tt).
Definition lift {A : Type} (o : outcome A) : M A := fun self => (self, [], o).

Declare Scope met_scope.
Delimit Scope met_scope with met.
Notation "x <- c ;; k" := (bind c (fun x => k))
  (at level 100, c at next level, right associativity) : met_scope.
Notation "c ;;; k" := (bind c (fun _ => k))
  (at level 100, right associativity) : met_scope.
Local Open Scope met_scope.

(** A [for] loop that collects one result per element and stops at the
    first exception. *)
Fixpoint for_each {A B : Type} (l : list A) (body : A -> M B) : M (list B) :=
  match l with
  | [] => ret []
  | x :: rest =>
      y <- body x ;;
      ys <- for_each rest body ;;
      ret (y :: ys)
  end.

(** The body of the loop of [_create_events]: the subscripts and the
    division are evaluated in the order of the constructor's arguments. *)
Definition new_event (strike_id : string) : M MetLightningEvent.t :=
  self <- get ;;
  strike <- lift (getitem (_strikes self) strike_id) ;;
  raw <- lift (getitem strike "distance") ;;
  distance <- lift (truediv raw 1000%float) ;;
  lat <- lift (getitem strike "lat") ;;
  long <- lift (getitem strike "long") ;;
  date <- lift (getitem strike "date") ;;
  ret (MetLightningEvent.__init__ distance lat long strike_id date).

(** Iterating a Python set visits its elements in an unspecified order;
    [elements] fixes one. The choice shows only in the order of the
    signals sent, in the order of the events of a batch, and in which
    malformed strike a cycle meets first. *)
Definition _create_events (ids_to_create : gset string) : M unit :=
  emit (Debug (GoingToCreate ids_to_create)) ;;;
  events <- for_each (elements ids_to_create) new_event ;;
  emit (AddEntities events).

Definition _remove_events (ids_to_remove : gset string) : M unit :=
  emit (Debug (GoingToRemove ids_to_remove)) ;;;
  for_each (elements ids_to_remove)
    (fun strike_id => emit (DispatcherSend (SIGNAL_DELETE_ENTITY strike_id))) ;;;
  ret tt.

(** [await self._client.within_radius(...)]: the call is made, then its
    answer either comes back or is raised at the [await]. *)
Definition within_radius (answer : fetch_result)
    (latitude longitude : float) (radius : Z) : M snapshot :=
  emit (WithinRadius latitude longitude radius) ;;;
  match answer with
  | Fetched strikes => ret strikes
  | FetchFailed e => raise e
  end.

Definition async_update (answer : fetch_result) : M unit :=
  emit (Debug Refreshing) ;;;
  self <- get ;;
  strikes <- within_radius answer (_latitude self) (_longitude self)
               (_radius self * 100000000000000) ;;
  modify (set_strikes strikes) ;;;
  self <- get ;;
  let new_strike_ids : gset string := dom (_strikes self) in
  let ids_to_remove := _managed_strike_ids self ∖ new_strike_ids in
  _remove_events ids_to_remove ;;;
  self <- get ;;
  let ids_to_create := new_strike_ids ∖ _managed_strike_ids self in
  _create_events ids_to_create ;;;
  modify (set_managed_strike_ids new_strike_ids).

(** The timer callback [update(event_time)] of [async_init]. *)
Definition update (answer : fetch_result) : M unit := async_update answer.

(** One immediate cycle, then the recurring timer is registered. *)
Definition async_init (answer : fetch_result) : M unit :=
  async_update answer ;;;
  emit (TrackTimeInterval DEFAULT_UPDATE_INTERVAL).

End MetLightningEventManager.

(** ** async_setup_entry *)

(** [hass.config]: the host's home position. *)
Record HassConfig : Type := {
  latitude : float;
  longitude : float
}.

(** [entry.data], as the config flow validated it: the radius is an int
    (the module compares it with the int [0] and scales it by an int), the
    track-home flag is optional and read with [.get(..., False)], and the
    coordinates are read only when that flag is not set. *)
Record ConfigEntryData : Type := {
  CONF_RADIUS : Z;
  CONF_TRACK_HOME : option bool;
  CONF_LATITUDE : option float;
  CONF_LONGITUDE : option float
}.

(** [entry.data[key]] for a coordinate. *)
Definition entry_getitem (key : string) (field : option float) : outcome float :=
  match field with
  | Some v => Return v
  | None => Raise (KeyError key)
  end.

(** The result names the manager the call constructed, if any, in its
    state at the end of [async_init], the calls made, and how the
    coroutine ended. *)
Definition async_setup_entry (hass : HassConfig) (entry : ConfigEntryData)
    (answer : fetch_result)
    : option MetLightningEventManager.t * list effect * outcome unit :=
  if CONF_RADIUS entry <=? 0 then (None, [], Return tt)
  else
    let origin :=
      if default false (CONF_TRACK_HOME entry)
      then Return (latitude hass, longitude hass)
      else
        match entry_getitem "latitude" (CONF_LATITUDE entry) with
        | Return lat =>
            match entry_getitem "longitude" (CONF_LONGITUDE entry) with
            | Return lon => Return (lat, lon)
            | Raise e => Raise e
            end
        | Raise e => Raise e
        end in
    match origin with
    | Return (lat, lon) =>
        let manager := MetLightningEventManager.__init__ lat lon (CONF_RADIUS entry) in
        let '(manager', tr, r) := MetLightningEventManager.async_init answer manager in
        (Some manager', tr, r)
    | Raise e => (None, [], Raise e)
    end.

(** ** Observations on a finished call *)

Definition state_of {S A : Type} (r : S * list effect * outcome A) : S := r.1.1.
Definition trace_of {S A : Type} (r : S * list effect * outcome A) : list effect := r.1.2.
Definition outcome_of {S A : Type} (r : S * list effect * outcome A) : outcome A := r.2.

(** The signals broadcast and the batches of entities registered. *)
Definition signals_sent (tr : list effect) : list string :=
  omap (fun ev => match ev with DispatcherSend s => Some s | _ => None end) tr.
Definition batches_added (tr : list effect) : list (list MetLightningEvent.t) :=
  omap (fun ev => match ev with AddEntities evs => Some evs | _ => None end) tr.
Definition sets_to_remove (tr : list effect) : list (gset string) :=
  omap (fun ev => match ev with Debug (GoingToRemove ids) => Some ids | _ => None end) tr.
Definition sets_to_create (tr : list effect) : list (gset string) :=
  omap (fun ev => match ev with Debug (GoingToCreate ids) => Some ids | _ => None end) tr.
Definition radii_requested (tr : list effect) : list Z :=
  omap (fun ev => match ev with WithinRadius _ _ r => Some r | _ => None end) tr.

(** The strikes a cycle can turn into an event: the four fields are
    present and the distance divides. *)
Definition strike_ok (st : strike) : Prop :=
  (exists raw f, st !! "distance" = Some raw /\ truediv raw 1000%float = Return f)
  /\ is_Some (st !! "lat") /\ is_Some (st !! "long") /\ is_Some (st !! "date").

(** Results of a loop body, gathered until the first exception. *)
Fixpoint collect {A : Type} (l : list (outcome A)) : outcome (list A) :=
  match l with
  | [] => Return []
  | Return a :: rest =>
      match collect rest with
      | Return xs => Return (a :: xs)
      | Raise e => Raise e
      end
  | Raise e :: _ => Raise e
  end.

(** What the body of the loop of [_create_events] does with the strike that
    the subscript [self._strikes[strike_id]] gave it: the arguments of the
    constructor, evaluated in order. *)
Definition event_of_strike (strike_id : string) (st : strike)
    : outcome MetLightningEvent.t :=
  match getitem st "distance" with
  | Raise e => Raise e
  | Return raw =>
      match truediv raw 1000%float with
      | Raise e => Raise e
      | Return distance =>
          match getitem st "lat" with
          | Raise e => Raise e
          | Return lat =>
              match getitem st "long" with
              | Raise e => Raise e
              | Return long =>
                  match getitem st "date" with
                  | Raise e => Raise e
                  | Return date =>
                      Return (MetLightningEvent.__init__ distance lat long strike_id date)
                  end
              end
          end
      end
  end.

(** The calls every cycle makes once the provider has answered, up to the
    creation of the new events. *)
Definition cycle_prefix (self : MetLightningEventManager.t)
    (new_strike_ids : gset string) : list effect :=
  [Debug Refreshing;
   WithinRadius (MetLightningEventManager._latitude self)
     (MetLightningEventManager._longitude self)
     (MetLightningEventManager._radius self * 100000000000000);
   Debug (GoingToRemove
            (MetLightningEventManager._managed_strike_ids self ∖ new_strike_ids))]
  ++ map (fun i => DispatcherSend (SIGNAL_DELETE_ENTITY i))
       (elements (MetLightningEventManager._managed_strike_ids self ∖ new_strike_ids))
  ++ [Debug (GoingToCreate
               (new_strike_ids ∖ MetLightningEventManager._managed_strike_ids self))].

(** The claim C4 as the specification words it: the cycle ends normally
    after a failed fetch. *)
Definition fetch_failure_is_swallowed (e : exn)
    (self : MetLightningEventManager.t) : Prop :=
  outcome_of (MetLightningEventManager.async_update (FetchFailed e) self) = Return tt.

(** ** Sample data *)

Definition strike_at (distance : value) : strike :=
  {[ "distance" := distance; "lat" := VFloat 59.5%float;
     "long" := VFloat 10.75%float; "date" := VStr "2020-06-01T12:00:00Z" ]}.

Definition oslo : MetLightningEventManager.t :=
  MetLightningEventManager.__init__ 59.5%float 10.75%float 1.

Definition home : HassConfig := {| latitude := 59.5%float; longitude := 10.75%float |}.

Definition response_S1 : snapshot := {[ "S1" := strike_at (VInt 12345) ]}.
Definition response_S1_S2 : snapshot :=
  {[ "S1" := strike_at (VInt 12345); "S2" := strike_at (VFloat 800%float) ]}.
Definition response_S2 : snapshot := {[ "S2" := strike_at (VFloat 800%float) ]}.

Definition entry_disabled : ConfigEntryData :=
  {| CONF_RADIUS := 0; CONF_TRACK_HOME := Some true;
     CONF_LATITUDE := None; CONF_LONGITUDE := None |}.

Definition entry_tracking_home : ConfigEntryData :=
  {| CONF_RADIUS := 25; CONF_TRACK_HOME := Some true;
     CONF_LATITUDE := None; CONF_LONGITUDE := None |}.

Definition entry_elsewhere : ConfigEntryData :=
  {| CONF_RADIUS := 25; CONF_TRACK_HOME := None;
     CONF_LATITUDE := Some 63.5%float; CONF_LONGITUDE := Some 10.5%float |}.

(** The event a cycle builds for the strike of [response_S1]. *)
Definition event_S1 : MetLightningEvent.t :=
  MetLightningEvent.__init__ 12.345%float (VFloat 59.5%float) (VFloat 10.75%float)
    "S1" (VStr "2020-06-01T12:00:00Z").

(** Three answers of the provider: a timeout, and two responses whose
    strikes are [A], [B] and [B], [C]. *)
Definition timeout : fetch_result := FetchFailed (ProviderError "timeout").
Definition response_A_B : snapshot :=
  {[ "A" := strike_at (VInt 100); "B" := strike_at (VInt 200) ]}.
Definition response_B_C : snapshot :=
  {[ "B" := strike_at (VInt 200); "C" := strike_at (VInt 300) ]}.

(** ** class MetLightningEvent: attributes and life cycle *)

Definition ATTR_EXTERNAL_ID : string := "external_id".
Definition ATTR_PUBLICATION_DATE : string := "publication_date".

(** The attribute bag, filled key by key as the property does. The key
    [ATTR_ATTRIBUTION] comes from the host's constants and is a parameter. *)
Definition device_state_attributes (ATTR_ATTRIBUTION : string)
    (self : MetLightningEvent.t) : gmap string value :=
  let attributes : gmap string value := ∅ in
  let attributes :=
    <[ATTR_EXTERNAL_ID := VStr (MetLightningEvent._strike_id self)]> attributes in
  let attributes := <[ATTR_ATTRIBUTION := VStr ATTRIBUTION]> attributes in
  let attributes :=
    <[ATTR_PUBLICATION_DATE := MetLightningEvent._publication_date self]> attributes in
  attributes.

(** What an event asks of the host: a subscription to a signal, a call of
    the handle that cancels the subscription to a signal, and a task that
    removes the entity. *)
Inductive entity_effect : Type :=
  | DispatcherConnect (signal : string)
  | CallUnsubscribe (signal : string)
  | CreateTaskAsyncRemove (strike_id : string).

(** The handle kept in [_remove_signal_delete] is named by the signal whose
    subscription it cancels. *)
Definition async_added_to_hass (self : MetLightningEvent.t)
    : MetLightningEvent.t * list entity_effect :=
  let signal := SIGNAL_DELETE_ENTITY (MetLightningEvent._strike_id self) in
  ({| MetLightningEvent._distance := MetLightningEvent._distance self;
      MetLightningEvent._latitude := MetLightningEvent._latitude self;
      MetLightningEvent._longitude := MetLightningEvent._longitude self;
      MetLightningEvent._publication_date := MetLightningEvent._publication_date self;
      MetLightningEvent._remove_signal_delete := Some signal;
      MetLightningEvent._strike_id := MetLightningEvent._strike_id self |},
   [DispatcherConnect signal]).

(** Calling the attribute while it is still [None] is a [TypeError]. *)
Definition _delete_callback (self : MetLightningEvent.t)
    : list entity_effect * outcome unit :=
  match MetLightningEvent._remove_signal_delete self with
  | None => ([], Raise TypeError)
  | Some signal =>
      ([CallUnsubscribe signal;
        CreateTaskAsyncRemove (MetLightningEvent._strike_id self)],
       Return tt)
  end.

(** ** Several calls of the cycle on one manager *)

(** [async_update] called once per answer, each call on the manager as the
    previous call left it, with how each call ended. *)
Fixpoint async_updates (answers : list fetch_result)
    (self : MetLightningEventManager.t)
    : MetLightningEventManager.t * list (outcome unit) :=
  match answers with
  | [] => (self, [])
  | answer :: rest =>
      let run := MetLightningEventManager.async_update answer self in
      let '(self', ends) := async_updates rest (state_of run) in
      (self', outcome_of run :: ends)
  end.

Definition raised {A : Type} (o : outcome A) : Prop :=
  match o with
  | Raise _ => True
  | Return _ => False
  end.

Definition timers_registered (tr : list effect) : list Z :=
  omap (fun ev => match ev with TrackTimeInterval i => Some i | _ => None end) tr.

(** More sample data: a response with a strike that has no fields, and an
    entry without a latitude. *)
Definition response_B_bad : snapshot :=
  {[ "B" := strike_at (VInt 200); "Z" := ∅ ]}.

Definition entry_without_origin : ConfigEntryData :=
  {| CONF_RADIUS := 25; CONF_TRACK_HOME := Some false;
     CONF_LATITUDE := None; CONF_LONGITUDE := Some 10.5%float |}.

(** * Properties *)

Import MetLightningEventManager.
Local Open Scope met_scope.

(** ** The loops *)

Lemma new_event_pure (strike_id : string) (self : t) :
  new_event strike_id self = (self, [], outcome_of (new_event strike_id self)).
Proof.
  unfold new_event, bind, get, lift, ret, getitem, outcome_of; simpl.
  destruct (_strikes self !! strike_id) as [st|]; simpl; [|reflexivity].
  destruct (st !! "distance") as [raw|]; simpl; [|reflexivity].
  destruct (truediv raw 1000) as [f|e]; simpl; [|reflexivity].
  destruct (st !! "lat"); simpl; [|reflexivity].
  destruct (st !! "long"); simpl; [|reflexivity].
  destruct (st !! "date"); reflexivity.
Qed.

Lemma for_each_new_event (l : list string) (self : t) :
  for_each l new_event self
  = (self, [], collect (map (fun i => outcome_of (new_event i self)) l)).
Proof.
  induction l as [|i l IH]; [reflexivity|].
  simpl. unfold bind at 1. rewrite new_event_pure.
  destruct (outcome_of (new_event i self)) as [ev|e]; [|reflexivity].
  unfold bind at 1. rewrite IH.
  destruct (collect _); reflexivity.
Qed.

Lemma for_each_send (l : list string) (self : t) :
  for_each l (fun i => emit (DispatcherSend (SIGNAL_DELETE_ENTITY i))) self
  = (self, map (fun i => DispatcherSend (SIGNAL_DELETE_ENTITY i)) l,
     Return (map (fun _ => tt) l)).
Proof.
  induction l as [|i l IH]; [reflexivity|].
  simpl. unfold bind at 1, emit at 1. unfold bind at 1. rewrite IH.
  unfold ret; simpl. rewrite app_nil_r. reflexivity.
Qed.

(** ** The shape of one cycle *)

Lemma async_update_fetched (s : snapshot) (self : t) :
  async_update (Fetched s) self
  = match collect (map (fun i => outcome_of (new_event i (set_strikes s self)))
                     (elements (dom s ∖ _managed_strike_ids self))) with
    | Return events =>
        (set_managed_strike_ids (dom s) (set_strikes s self),
         cycle_prefix self (dom s) ++ [AddEntities events], Return tt)
    | Raise e => (set_strikes s self, cycle_prefix self (dom s), Raise e)
    end.
Proof.
  unfold async_update, within_radius, _remove_events, _create_events.
  unfold bind at 1, emit at 1. unfold bind at 1, get at 1.
  unfold bind at 1. unfold bind at 1, emit at 1, ret at 1.
  unfold bind at 1, modify at 1. unfold bind at 1, get at 1.
  unfold bind at 1. unfold bind at 1, emit at 1. unfold bind at 1.
  rewrite for_each_send. unfold ret at 1.
  unfold bind at 1, get at 1. unfold bind at 1. unfold bind at 1, emit at 1.
  unfold bind at 1. rewrite for_each_new_event.
  unfold cycle_prefix. simpl.
  destruct (collect _) as [events|e]; simpl.
  - unfold emit, modify. simpl. rewrite app_nil_r.
    rewrite <- !app_assoc. reflexivity.
  - rewrite !app_nil_r. reflexivity.
Qed.

Lemma async_update_failed (e : exn) (self : t) :
  async_update (FetchFailed e) self
  = (self,
     [Debug Refreshing;
      WithinRadius (_latitude self) (_longitude self) (_radius self * 100000000000000)],
     Raise e).
Proof. reflexivity. Qed.

(** ** What the trace of a cycle shows *)

Lemma omap_sends {B : Type} (f : effect -> option B) (l : list string) :
  (forall sig, f (DispatcherSend sig) = None) ->
  omap f (map (fun i => DispatcherSend (SIGNAL_DELETE_ENTITY i)) l) = [].
Proof.
  intros Hf. induction l as [|i l IH]; simpl; [reflexivity|].
  rewrite Hf. exact IH.
Qed.

Lemma sets_to_remove_prefix (self : t) (ids : gset string) :
  sets_to_remove (cycle_prefix self ids) = [_managed_strike_ids self ∖ ids].
Proof.
  unfold sets_to_remove, cycle_prefix. rewrite !omap_app.
  rewrite omap_sends by reflexivity. reflexivity.
Qed.

Lemma sets_to_create_prefix (self : t) (ids : gset string) :
  sets_to_create (cycle_prefix self ids) = [ids ∖ _managed_strike_ids self].
Proof.
  unfold sets_to_create, cycle_prefix. rewrite !omap_app.
  rewrite omap_sends by reflexivity. reflexivity.
Qed.

Lemma signals_sent_prefix (self : t) (ids : gset string) :
  signals_sent (cycle_prefix self ids)
  = map SIGNAL_DELETE_ENTITY (elements (_managed_strike_ids self ∖ ids)).
Proof.
  unfold signals_sent, cycle_prefix. rewrite !omap_app. simpl.
  rewrite app_nil_r.
  induction (elements _) as [|i l IH]; simpl; [reflexivity|].
  f_equal. exact IH.
Qed.

Lemma batches_added_prefix (self : t) (ids : gset string) :
  batches_added (cycle_prefix self ids) = [].
Proof.
  unfold batches_added, cycle_prefix. rewrite !omap_app.
  rewrite omap_sends by reflexivity. reflexivity.
Qed.

(** ** Building the events *)

Lemma new_event_returns (strike_id : string) (self : t) (st : strike) :
  _strikes self !! strike_id = Some st -> strike_ok st ->
  exists ev, outcome_of (new_event strike_id self) = Return ev.
Proof.
  intros Hst [(raw & f & Hraw & Hdiv) [[la Hla] [[lo Hlo] [da Hda]]]].
  unfold new_event, bind, get, lift, ret, getitem, outcome_of; simpl.
  rewrite Hst; simpl. rewrite Hraw; simpl. rewrite Hdiv; simpl.
  rewrite Hla; simpl. rewrite Hlo; simpl. rewrite Hda; simpl.
  eexists; reflexivity.
Qed.

Lemma new_event_inv (strike_id : string) (self : t) (ev : MetLightningEvent.t) :
  outcome_of (new_event strike_id self) = Return ev ->
  exists st raw,
    _strikes self !! strike_id = Some st
    /\ st !! "distance" = Some raw
    /\ truediv raw 1000%float = Return (MetLightningEvent.distance ev)
    /\ MetLightningEvent._strike_id ev = strike_id.
Proof.
  unfold new_event, bind, get, lift, ret, getitem, outcome_of; simpl.
  destruct (_strikes self !! strike_id) as [st|]; simpl; [|discriminate].
  destruct (st !! "distance") as [raw|] eqn:Hraw; simpl; [|discriminate].
  destruct (truediv raw 1000) as [f|e] eqn:Hdiv; simpl; [|discriminate].
  destruct (st !! "lat"); simpl; [|discriminate].
  destruct (st !! "long"); simpl; [|discriminate].
  destruct (st !! "date"); simpl; [|discriminate].
  intros [= <-]. exists st, raw. repeat split; assumption.
Qed.

Lemma collect_returns {A B : Type} (f : A -> outcome B) (l : list A) :
  (forall i, In i l -> exists b, f i = Return b) ->
  exists bs, collect (map f l) = Return bs.
Proof.
  induction l as [|i l IH]; intros Hall; simpl.
  - eexists; reflexivity.
  - destruct (Hall i (or_introl eq_refl)) as [b ->].
    destruct IH as [bs ->]; [intros j Hj; apply Hall; right; exact Hj|].
    eexists; reflexivity.
Qed.

Lemma collect_inv {A B : Type} (f : A -> outcome B) (l : list A) (bs : list B) :
  collect (map f l) = Return bs ->
  forall b, In b bs -> exists i, In i l /\ f i = Return b.
Proof.
  revert bs. induction l as [|i l IH]; simpl; intros bs Hc b Hb.
  - injection Hc as <-. destruct Hb.
  - destruct (f i) as [b0|e] eqn:Hfi; [|discriminate].
    destruct (collect (map f l)) as [bs0|e]; [|discriminate].
    injection Hc as <-. destruct Hb as [<-|Hb].
    + exists i. split; [left; reflexivity | exact Hfi].
    + destruct (IH bs0 eq_refl b Hb) as (j & Hj & Hfj).
      exists j. split; [right; exact Hj | exact Hfj].
Qed.

Lemma In_elements (i : string) (X : gset string) : In i (elements X) <-> i ∈ X.
Proof. rewrite <- list_elem_of_In. apply elem_of_elements. Qed.

(** A cycle over well-formed strikes returns. *)
Lemma cycle_returns (s : snapshot) (self : t) :
  map_Forall (fun _ st => strike_ok st) s ->
  outcome_of (async_update (Fetched s) self) = Return tt.
Proof.
  intros Hwf. rewrite async_update_fetched.
  destruct (collect_returns
              (fun i => outcome_of (new_event i (set_strikes s self)))
              (elements (dom s ∖ _managed_strike_ids self))) as [evs ->];
    [|reflexivity].
  intros i Hi. apply In_elements in Hi.
  apply elem_of_difference in Hi as [Hi _].
  apply elem_of_dom in Hi as [st Hst].
  apply (new_event_returns i (set_strikes s self) st Hst).
  exact (Hwf i st Hst).
Qed.

(** The two sets a cycle logs, whether or not the creation loop raises. *)
Lemma cycle_logged_sets (s : snapshot) (self : t) :
  sets_to_remove (trace_of (async_update (Fetched s) self))
  = [_managed_strike_ids self ∖ dom s]
  /\ sets_to_create (trace_of (async_update (Fetched s) self))
     = [dom s ∖ _managed_strike_ids self].
Proof.
  rewrite async_update_fetched.
  destruct (collect _) as [evs|e]; unfold trace_of; cbn [fst snd].
  - unfold sets_to_remove, sets_to_create. rewrite !omap_app.
    fold (sets_to_remove (cycle_prefix self (dom s))).
    fold (sets_to_create (cycle_prefix self (dom s))).
    rewrite sets_to_remove_prefix, sets_to_create_prefix.
    split; reflexivity.
  - split; [apply sets_to_remove_prefix | apply sets_to_create_prefix].
Qed.

(** ** The reconciliation *)

(** C1. After a cycle that completes, the known ids are exactly the ids of
    the response it fetched (and that response is the snapshot), whatever
    the known ids were before; a cycle over well-formed strikes completes. *)
Theorem known_ids_after_cycle (s : snapshot) (self : t) :
  let run := async_update (Fetched s) self in
  (outcome_of run = Return tt ->
     _managed_strike_ids (state_of run) = dom s /\ _strikes (state_of run) = s)
  /\ (map_Forall (fun _ st => strike_ok st) s -> outcome_of run = Return tt).
Proof.
  split; [|apply cycle_returns].
  rewrite async_update_fetched.
  destruct (collect _) as [evs|e]; [|discriminate].
  intros _. split; reflexivity.
Qed.

Lemma known_ids_after_cycle_witness :
  outcome_of (async_update (Fetched response_S1_S2) oslo) = Return tt
  /\ _managed_strike_ids (state_of (async_update (Fetched response_S1_S2) oslo))
     = dom response_S1_S2.
Proof.
  split; [vm_compute; reflexivity|].
  apply (known_ids_after_cycle response_S1_S2 oslo). vm_compute; reflexivity.
Defined.

(** C2. In every cycle the set logged for removal is [known − new], the
    set logged for creation is [new − known], they are disjoint, and the
    created ids together with the known ids that are not removed are the
    fetched ids. *)
Theorem cycle_sets_partition (s : snapshot) (self : t) :
  let tr := trace_of (async_update (Fetched s) self) in
  let knownIds := _managed_strike_ids self in
  let newIds : gset string := dom s in
  exists idsToRemove idsToCreate,
    sets_to_remove tr = [idsToRemove]
    /\ sets_to_create tr = [idsToCreate]
    /\ idsToRemove = knownIds ∖ newIds
    /\ idsToCreate = newIds ∖ knownIds
    /\ idsToCreate ∩ idsToRemove = ∅
    /\ idsToCreate ∪ (knownIds ∖ idsToRemove) = newIds.
Proof.
  simpl. exists (_managed_strike_ids self ∖ dom s), (dom s ∖ _managed_strike_ids self).
  destruct (cycle_logged_sets s self) as [-> ->].
  split; [reflexivity|]. split; [reflexivity|].
  split; [reflexivity|]. split; [reflexivity|]. split.
  - apply set_eq. intros i.
    rewrite elem_of_intersection, !elem_of_difference, elem_of_empty. tauto.
  - apply set_eq. intros i.
    rewrite elem_of_union, !elem_of_difference.
    destruct (decide (i ∈ _managed_strike_ids self));
      destruct (decide (i ∈ dom s)); tauto.
Qed.

(** C7. A second cycle on the response of a first, completed cycle logs
    empty sets to remove and to create, broadcasts nothing, registers an
    empty batch and leaves the manager as the first cycle left it. *)
Theorem second_identical_cycle_is_noop (s : snapshot) (self : t)
    (Hfirst : outcome_of (async_update (Fetched s) self) = Return tt) :
  let self1 := state_of (async_update (Fetched s) self) in
  let run2 := async_update (Fetched s) self1 in
  sets_to_remove (trace_of run2) = [∅]
  /\ sets_to_create (trace_of run2) = [∅]
  /\ signals_sent (trace_of run2) = []
  /\ batches_added (trace_of run2) = [[]]
  /\ outcome_of run2 = Return tt
  /\ state_of run2 = self1.
Proof.
  rewrite async_update_fetched in Hfirst |- *.
  destruct (collect _) as [evs|e]; [clear Hfirst | discriminate Hfirst].
  unfold state_of; cbn [fst snd]. rewrite async_update_fetched.
  cbn [_managed_strike_ids set_managed_strike_ids].
  rewrite difference_diag_L, elements_empty. cbn [map collect].
  unfold trace_of, outcome_of; cbn [fst snd].
  unfold sets_to_remove, sets_to_create, signals_sent, batches_added.
  rewrite !omap_app.
  fold (sets_to_remove (cycle_prefix (set_managed_strike_ids (dom s) (set_strikes s self)) (dom s))).
  fold (sets_to_create (cycle_prefix (set_managed_strike_ids (dom s) (set_strikes s self)) (dom s))).
  fold (signals_sent (cycle_prefix (set_managed_strike_ids (dom s) (set_strikes s self)) (dom s))).
  fold (batches_added (cycle_prefix (set_managed_strike_ids (dom s) (set_strikes s self)) (dom s))).
  rewrite sets_to_remove_prefix, sets_to_create_prefix, signals_sent_prefix,
    batches_added_prefix.
  cbn [_managed_strike_ids set_managed_strike_ids].
  rewrite difference_diag_L, elements_empty.
  repeat split; reflexivity.
Qed.

Lemma second_identical_cycle_is_noop_witness :
  let self1 := state_of (async_update (Fetched response_S1_S2) oslo) in
  signals_sent (trace_of (async_update (Fetched response_S1_S2) self1)) = []
  /\ batches_added (trace_of (async_update (Fetched response_S1_S2) self1)) = [[]].
Proof.
  pose proof (second_identical_cycle_is_noop response_S1_S2 oslo) as H.
  destruct H as (_ & _ & Hs & Hb & _); [vm_compute; reflexivity|].
  split; assumption.
Defined.

Lemma new_event_from_strike (strike_id : string) (self : t) (st : strike) :
  _strikes self !! strike_id = Some st ->
  new_event strike_id self = (self, [], event_of_strike strike_id st).
Proof.
  intros Hst. rewrite new_event_pure. f_equal.
  unfold new_event, event_of_strike, bind, get, lift, ret, outcome_of; simpl.
  unfold getitem at 1. rewrite Hst; simpl.
  destruct (getitem st "distance") as [raw|]; simpl; [|reflexivity].
  destruct (truediv raw 1000) as [f|]; simpl; [|reflexivity].
  destruct (getitem st "lat"); simpl; [|reflexivity].
  destruct (getitem st "long"); simpl; [|reflexivity].
  destruct (getitem st "date"); reflexivity.
Qed.

Lemma getitem_KeyError {V : Type} (d : gmap string V) (key k : string) :
  getitem d key = Raise (KeyError k) -> k = key /\ d !! k = None.
Proof.
  unfold getitem. destruct (d !! key) eqn:Hd; [discriminate|].
  intros [= <-]. split; [reflexivity | exact Hd].
Qed.

Lemma truediv_no_KeyError (x : value) (y : float) (k : string) :
  truediv x y <> Raise (KeyError k).
Proof.
  unfold truediv, int_to_float. destruct x; try discriminate.
  destruct (PrimFloat.is_infinity _); discriminate.
Qed.

(** The only [KeyError] the rest of the loop body can raise names a field
    that the strike lacks. *)
Lemma event_of_strike_KeyError (strike_id : string) (st : strike) (k : string) :
  event_of_strike strike_id st = Raise (KeyError k) ->
  In k ["distance"; "lat"; "long"; "date"] /\ st !! k = None.
Proof.
  unfold event_of_strike.
  destruct (getitem st "distance") as [raw|e] eqn:H1.
  2:{ intros [= ->]. apply getitem_KeyError in H1 as [-> H1].
      split; [left; reflexivity | exact H1]. }
  destruct (truediv raw 1000) as [f|e] eqn:H2.
  2:{ intros [= ->]. destruct (truediv_no_KeyError _ _ _ H2). }
  destruct (getitem st "lat") as [la|e] eqn:H3.
  2:{ intros [= ->]. apply getitem_KeyError in H3 as [-> H3].
      split; [right; left; reflexivity | exact H3]. }
  destruct (getitem st "long") as [lo|e] eqn:H4.
  2:{ intros [= ->]. apply getitem_KeyError in H4 as [-> H4].
      split; [right; right; left; reflexivity | exact H4]. }
  destruct (getitem st "date") as [da|e] eqn:H5; [discriminate|].
  intros [= ->]. apply getitem_KeyError in H5 as [-> H5].
  split; [right; right; right; left; reflexivity | exact H5].
Qed.

Lemma collect_raise_inv {A B : Type} (f : A -> outcome B) (l : list A) (e : exn) :
  collect (map f l) = Raise e -> exists i, In i l /\ f i = Raise e.
Proof.
  induction l as [|i l IH]; simpl; [discriminate|].
  destruct (f i) as [b|e0] eqn:Hfi.
  - destruct (collect (map f l)) as [bs|e1]; [discriminate|].
    intros [= ->]. destruct (IH eq_refl) as (j & Hj & Hfj).
    exists j. split; [right; exact Hj | exact Hfj].
  - intros [= ->]. exists i. split; [left; reflexivity | exact Hfi].
Qed.

(** C10. Every id of the set a cycle is going to create is a key of the
    snapshot just fetched. So, in the state in which [_create_events] runs,
    the subscript [self._strikes[strike_id]] of the loop body returns the
    fetched strike of that id and the body goes on with that strike; a
    [KeyError] of the body, and so of the whole cycle, can only name a
    field that a fetched strike lacks, never a strike id missing from the
    snapshot. This holds whatever the known ids and the response. *)
Theorem ids_to_create_are_in_snapshot (s : snapshot) (self : t)
    (idsToCreate : gset string) (strike_id : string)
    (Hlog : In idsToCreate (sets_to_create (trace_of (async_update (Fetched s) self))))
    (Hid : strike_id ∈ idsToCreate) :
  idsToCreate ⊆ dom s
  /\ _strikes (state_of (async_update (Fetched s) self)) = s
  /\ (exists st,
        getitem (_strikes (set_strikes s self)) strike_id = Return st
        /\ new_event strike_id (set_strikes s self)
           = (set_strikes s self, [], event_of_strike strike_id st)
        /\ forall key,
             outcome_of (new_event strike_id (set_strikes s self)) = Raise (KeyError key) ->
             In key ["distance"; "lat"; "long"; "date"] /\ st !! key = None)
  /\ (forall key,
        outcome_of (async_update (Fetched s) self) = Raise (KeyError key) ->
        exists i st,
          i ∈ idsToCreate /\ s !! i = Some st
          /\ In key ["distance"; "lat"; "long"; "date"] /\ st !! key = None).
Proof.
  assert (Hc : idsToCreate = dom s ∖ _managed_strike_ids self).
  { destruct (cycle_logged_sets s self) as [_ HC].
    rewrite HC in Hlog. destruct Hlog as [<-|[]]. reflexivity. }
  subst idsToCreate. split; [apply subseteq_difference_l; reflexivity|].
  split; [|split].
  - rewrite async_update_fetched. destruct (collect _); reflexivity.
  - apply elem_of_difference in Hid as [Hid _].
    apply elem_of_dom in Hid as [st Hst].
    exists st. split; [|split].
    + unfold getitem. cbn [_strikes set_strikes]. rewrite Hst. reflexivity.
    + apply new_event_from_strike. exact Hst.
    + intros key. rewrite (new_event_from_strike _ (set_strikes s self) st Hst).
      apply event_of_strike_KeyError.
  - intros key. rewrite async_update_fetched.
    destruct (collect _) as [evs|e] eqn:Hcol; [discriminate|]. intros [= ->].
    apply collect_raise_inv in Hcol as (i & Hi & Hraise).
    apply In_elements in Hi.
    pose proof Hi as Hnew. apply elem_of_difference in Hi as [Hi _].
    apply elem_of_dom in Hi as [st Hst].
    rewrite (new_event_from_strike _ (set_strikes s self) st Hst) in Hraise.
    apply event_of_strike_KeyError in Hraise as [Hfield Hnone].
    exists i, st. repeat split; assumption.
Qed.

Lemma ids_to_create_are_in_snapshot_witness :
  exists st,
    getitem (_strikes (set_strikes response_S1_S2 oslo)) "S2" = Return st
    /\ new_event "S2" (set_strikes response_S1_S2 oslo)
       = (set_strikes response_S1_S2 oslo, [], event_of_strike "S2" st)
    /\ forall key,
         outcome_of (new_event "S2" (set_strikes response_S1_S2 oslo))
         = Raise (KeyError key) ->
         In key ["distance"; "lat"; "long"; "date"] /\ st !! key = None.
Proof.
  apply (ids_to_create_are_in_snapshot response_S1_S2 oslo {[ "S1"; "S2" ]} "S2").
  - left. vm_compute. reflexivity.
  - apply elem_of_union_r, elem_of_singleton. reflexivity.
Defined.

(** ** The event records *)

(** In a cycle that completes, one batch is registered, with one event per
    id to create, in the order of the loop. *)
Lemma created_events_ids (s : snapshot) (self : t) :
  outcome_of (async_update (Fetched s) self) = Return tt ->
  exists events,
    batches_added (trace_of (async_update (Fetched s) self)) = [events]
    /\ Forall2 (fun i ev => outcome_of (new_event i (set_strikes s self)) = Return ev)
         (elements (dom s ∖ _managed_strike_ids self)) events.
Proof.
  rewrite async_update_fetched.
  destruct (collect _) as [evs|e] eqn:Hc; [intros _ | discriminate].
  exists evs. split.
  - unfold trace_of, batches_added; cbn [fst snd]. rewrite omap_app.
    fold (batches_added (cycle_prefix self (dom s))).
    rewrite batches_added_prefix. reflexivity.
  - revert evs Hc. induction (elements _) as [|i l IH]; simpl; intros evs Hc.
    + injection Hc as <-. constructor.
    + destruct (outcome_of (new_event i (set_strikes s self))) as [ev|e] eqn:Hi;
        [|discriminate].
      destruct (collect _) as [evs0|e]; [|discriminate].
      injection Hc as <-. constructor; [exact Hi | apply IH; reflexivity].
Qed.

(** C6. Every event a cycle registers carries as its distance the raw
    distance of its fetched strike divided by [1000.0]; a raw distance of
    12345 gives 12.345. *)
Theorem created_event_distance (s : snapshot) (self : t)
    (events : list MetLightningEvent.t) (ev : MetLightningEvent.t)
    (Hadd : In events (batches_added (trace_of (async_update (Fetched s) self))))
    (Hev : In ev events) :
  exists st raw,
    s !! MetLightningEvent._strike_id ev = Some st
    /\ st !! "distance" = Some raw
    /\ truediv raw 1000%float = Return (MetLightningEvent.distance ev)
    /\ (raw = VInt 12345 \/ raw = VFloat 12345%float ->
        MetLightningEvent.distance ev = 12.345%float).
Proof.
  rewrite async_update_fetched in Hadd.
  destruct (collect _) as [evs|e] eqn:Hc; unfold trace_of in Hadd; cbn [fst snd] in Hadd.
  - unfold batches_added in Hadd. rewrite omap_app in Hadd.
    fold (batches_added (cycle_prefix self (dom s))) in Hadd.
    rewrite batches_added_prefix in Hadd. destruct Hadd as [<-|[]].
    destruct (collect_inv _ _ _ Hc ev Hev) as (i & _ & Hi).
    apply new_event_inv in Hi as (st & raw & Hst & Hraw & Hdiv & Hid).
    exists st, raw. rewrite Hid. repeat split; try assumption.
    intros Hraw12345.
    assert (H12 : Return (MetLightningEvent.distance ev) = Return 12.345%float).
    { rewrite <- Hdiv. destruct Hraw12345 as [-> | ->]; vm_compute; reflexivity. }
    injection H12 as ->. reflexivity.
  - rewrite batches_added_prefix in Hadd. destruct Hadd.
Qed.

Lemma created_event_distance_witness :
  exists st raw,
    response_S1 !! MetLightningEvent._strike_id event_S1 = Some st
    /\ st !! "distance" = Some raw
    /\ truediv raw 1000%float = Return (MetLightningEvent.distance event_S1)
    /\ (raw = VInt 12345 \/ raw = VFloat 12345%float ->
        MetLightningEvent.distance event_S1 = 12.345%float).
Proof.
  apply (created_event_distance response_S1 oslo [event_S1] event_S1).
  - left. vm_compute. reflexivity.
  - left. reflexivity.
Defined.

(** ** A failed fetch *)

(** C3. When the provider call raises, the cycle broadcasts no removal and
    registers no entity, and the manager (known ids and snapshot included)
    is exactly what it was before the cycle. *)
Theorem fetch_failure_leaves_manager_untouched (e : exn) (self : t) :
  let run := async_update (FetchFailed e) self in
  signals_sent (trace_of run) = []
  /\ batches_added (trace_of run) = []
  /\ state_of run = self
  /\ _managed_strike_ids (state_of run) = _managed_strike_ids self
  /\ _strikes (state_of run) = _strikes self.
Proof. rewrite async_update_failed. repeat split; reflexivity. Qed.

(** C4, refuted: a provider timeout leaves the cycle as an exception. *)
Lemma fetch_failure_is_not_swallowed :
  ~ fetch_failure_is_swallowed (ProviderError "timeout") oslo.
Proof. unfold fetch_failure_is_swallowed. rewrite async_update_failed. discriminate. Qed.

(** C4, amended. The module has no handler around the provider call: the
    exception of a failed fetch leaves [async_update], and with it the timer
    callback [update] and [async_init], unchanged; the only record logged is
    the debug line written before the call, and [async_init] does not get
    to register the timer. *)
Theorem fetch_failure_propagates (e : exn) (self : t) :
  outcome_of (async_update (FetchFailed e) self) = Raise e
  /\ outcome_of (update (FetchFailed e) self) = Raise e
  /\ outcome_of (async_init (FetchFailed e) self) = Raise e
  /\ (forall r, In (Debug r) (trace_of (async_update (FetchFailed e) self)) -> r = Refreshing)
  /\ ~ In (TrackTimeInterval DEFAULT_UPDATE_INTERVAL)
         (trace_of (async_init (FetchFailed e) self)).
Proof.
  unfold update, async_init, bind. rewrite async_update_failed.
  repeat split; simpl.
  - intros r [H|[H|[]]]; congruence.
  - intros [H|[H|[]]]; discriminate.
Qed.

(** ** The radius sent to the provider *)

(** C5, refuted: with a configured radius of 1 the provider is not asked
    for 100000. *)
Lemma radius_factor_is_not_100000 :
  radii_requested (trace_of (async_update (Fetched ∅) oslo)) <> [_radius oslo * 100000].
Proof. vm_compute. discriminate. Qed.

(** C5, amended. Every cycle calls the provider once, with the configured
    radius multiplied by the fixed factor 100000000000000. *)
Theorem radius_is_scaled_by_fixed_factor (answer : fetch_result) (self : t) :
  radii_requested (trace_of (async_update answer self))
  = [_radius self * 100000000000000].
Proof.
  destruct answer as [s|e].
  - rewrite async_update_fetched. unfold radii_requested, cycle_prefix.
    destruct (collect _); unfold trace_of; simpl;
      rewrite !omap_app; simpl; rewrite app_nil_r;
      (induction (elements _) as [|i l IH]; [reflexivity | exact IH]).
  - rewrite async_update_failed. reflexivity.
Qed.

(** ** Setup *)

Lemma async_init_origin (answer : fetch_result) (self : t) :
  _latitude (state_of (async_init answer self)) = _latitude self
  /\ _longitude (state_of (async_init answer self)) = _longitude self
  /\ _radius (state_of (async_init answer self)) = _radius self
  /\ exists tr,
       trace_of (async_init answer self)
       = Debug Refreshing
         :: WithinRadius (_latitude self) (_longitude self)
              (_radius self * 100000000000000)
         :: tr.
Proof.
  unfold async_init, bind. destruct answer as [s|e].
  - rewrite async_update_fetched.
    destruct (collect _); unfold state_of, trace_of, cycle_prefix; cbn;
      repeat split; eexists; reflexivity.
  - rewrite async_update_failed. cbn. repeat split. eexists; reflexivity.
Qed.

(** C8. With a radius of zero or less, setup returns at once: no manager,
    no call to the provider, no timer. A manager exists, or any call has
    been made, only if the radius is positive. *)
Theorem setup_radius_gate (hass : HassConfig) (entry : ConfigEntryData)
    (answer : fetch_result) :
  let run := async_setup_entry hass entry answer in
  (CONF_RADIUS entry <= 0 -> run = (None, [], Return tt))
  /\ (is_Some (state_of run) \/ trace_of run <> [] -> 0 < CONF_RADIUS entry).
Proof.
  unfold async_setup_entry.
  destruct (Z.leb_spec (CONF_RADIUS entry) 0) as [Hle|Hgt]; cbn zeta.
  - split; [reflexivity|].
    intros [[m Hm]|Htr]; [discriminate Hm | exfalso; apply Htr; reflexivity].
  - split; [intros Hle; exfalso; apply (Z.lt_irrefl 0); 
            apply (Z.lt_le_trans _ _ _ Hgt Hle) | intros _; exact Hgt].
Qed.

Lemma setup_radius_gate_witness :
  async_setup_entry home entry_disabled (Fetched response_S1) = (None, [], Return tt)
  /\ 0 < CONF_RADIUS entry_tracking_home.
Proof.
  split.
  - apply (setup_radius_gate home entry_disabled (Fetched response_S1)).
    vm_compute. discriminate.
  - apply (setup_radius_gate home entry_tracking_home (Fetched response_S1)).
    left. vm_compute. eexists; reflexivity.
Defined.

(** C9. With a positive radius: when the track-home option is set, the
    manager is constructed with the host's home latitude and longitude and
    asks the provider about that origin; when the option is absent or
    false, it is constructed with the entry's own coordinates. *)
Theorem setup_origin (hass : HassConfig) (entry : ConfigEntryData)
    (answer : fetch_result) (Hradius : 0 < CONF_RADIUS entry) :
  let run := async_setup_entry hass entry answer in
  (CONF_TRACK_HOME entry = Some true ->
     exists manager tr,
       state_of run = Some manager
       /\ _latitude manager = latitude hass
       /\ _longitude manager = longitude hass
       /\ trace_of run
          = Debug Refreshing
            :: WithinRadius (latitude hass) (longitude hass)
                 (CONF_RADIUS entry * 100000000000000)
            :: tr)
  /\ (CONF_TRACK_HOME entry = None \/ CONF_TRACK_HOME entry = Some false ->
      forall lat lon,
        CONF_LATITUDE entry = Some lat -> CONF_LONGITUDE entry = Some lon ->
        exists manager tr,
          state_of run = Some manager
          /\ _latitude manager = lat
          /\ _longitude manager = lon
          /\ trace_of run
             = Debug Refreshing
               :: WithinRadius lat lon (CONF_RADIUS entry * 100000000000000)
               :: tr).
Proof.
  assert (Hgate : (CONF_RADIUS entry <=? 0) = false) by (apply Z.leb_gt; exact Hradius).
  assert (Hinit : forall lat lon,
            let m0 := __init__ lat lon (CONF_RADIUS entry) in
            exists manager tr,
              state_of (let '(m', tr, r) := async_init answer m0 in (Some m', tr, r))
              = Some manager
              /\ _latitude manager = lat /\ _longitude manager = lon
              /\ trace_of (let '(m', tr, r) := async_init answer m0 in (Some m', tr, r))
                 = Debug Refreshing
                   :: WithinRadius lat lon (CONF_RADIUS entry * 100000000000000) :: tr).
  { intros lat lon m0.
    destruct (async_init_origin answer m0) as (Hla & Hlo & _ & tr & Htr).
    destruct (async_init answer m0) as [[m' tr'] r] eqn:Hrun.
    exists m', tr. unfold state_of, trace_of in *; cbn [fst snd] in *.
    repeat split; assumption. }
  unfold async_setup_entry. rewrite Hgate. cbn zeta. split.
  - intros ->. cbn [default from_option]. apply Hinit.
  - intros Hoff lat lon -> ->.
    destruct Hoff as [-> | ->]; cbn [default from_option entry_getitem]; apply Hinit.
Qed.

Lemma setup_origin_witness :
  (exists manager tr,
     state_of (async_setup_entry home entry_tracking_home (Fetched response_S1))
     = Some manager
     /\ _latitude manager = latitude home
     /\ _longitude manager = longitude home
     /\ trace_of (async_setup_entry home entry_tracking_home (Fetched response_S1))
        = Debug Refreshing
          :: WithinRadius (latitude home) (longitude home)
               (CONF_RADIUS entry_tracking_home * 100000000000000)
          :: tr)
  /\ (exists manager tr,
        state_of (async_setup_entry home entry_elsewhere (FetchFailed TypeError))
        = Some manager
        /\ _latitude manager = 63.5%float
        /\ _longitude manager = 10.5%float
        /\ trace_of (async_setup_entry home entry_elsewhere (FetchFailed TypeError))
           = Debug Refreshing
             :: WithinRadius 63.5%float 10.5%float
                  (CONF_RADIUS entry_elsewhere * 100000000000000)
             :: tr).
Proof.
  assert (Hradius : 0 < 25) by reflexivity.
  split.
  - exact (proj1 (setup_origin home entry_tracking_home (Fetched response_S1) Hradius)
             eq_refl).
  - exact (proj2 (setup_origin home entry_elsewhere (FetchFailed TypeError) Hradius)
             (or_introl eq_refl) 63.5%float 10.5%float eq_refl eq_refl).
Defined.

(** ** Worked scenarios *)

(** Three cycles in a row: [S1] appears, then [S2] joins it, then [S1] is
    gone. *)
Example scenario_three_fetches :
  let run1 := async_update (Fetched response_S1) oslo in
  let run2 := async_update (Fetched response_S1_S2) (state_of run1) in
  let run3 := async_update (Fetched response_S2) (state_of run2) in
  (signals_sent (trace_of run1) = []
   /\ map (map MetLightningEvent._strike_id) (batches_added (trace_of run1)) = [["S1"]]
   /\ _managed_strike_ids (state_of run1) = {[ "S1" ]})
  /\ (signals_sent (trace_of run2) = []
      /\ map (map MetLightningEvent._strike_id) (batches_added (trace_of run2)) = [["S2"]]
      /\ _managed_strike_ids (state_of run2) = {[ "S1"; "S2" ]})
  /\ (signals_sent (trace_of run3) = ["delete_entity_S1"]
      /\ batches_added (trace_of run3) = [[]]
      /\ _managed_strike_ids (state_of run3) = {[ "S2" ]}).
Proof. vm_compute. repeat split; reflexivity. Qed.

(** A failed fetch between two good ones contributes nothing to the diff
    of the third cycle. *)
Example scenario_failure_isolation :
  let run1 := async_update (Fetched response_A_B) oslo in
  let run2 := async_update timeout (state_of run1) in
  let run3 := async_update (Fetched response_B_C) (state_of run2) in
  outcome_of run2 = Raise (ProviderError "timeout")
  /\ sets_to_remove (trace_of run3) = [{[ "A" ]}]
  /\ sets_to_create (trace_of run3) = [{[ "C" ]}].
Proof. vm_compute. repeat split; reflexivity. Qed.

(** A strike without a distance stops the cycle inside [_create_events],
    after the snapshot has been replaced and before the known ids are. *)
Example scenario_malformed_strike :
  let run := async_update (Fetched {[ "S9" := ∅ ]}) oslo in
  outcome_of run = Raise (KeyError "distance")
  /\ _strikes (state_of run) = {[ "S9" := ∅ ]}
  /\ _managed_strike_ids (state_of run) = ∅.
Proof. vm_compute. repeat split; reflexivity. Qed.

(** ** Which calls return, and what a raising call leaves behind *)

Lemma new_event_strike_ok (strike_id : string) (self : t) (ev : MetLightningEvent.t) :
  outcome_of (new_event strike_id self) = Return ev ->
  exists st, _strikes self !! strike_id = Some st /\ strike_ok st.
Proof.
  unfold new_event, bind, get, lift, ret, getitem, outcome_of; simpl.
  destruct (_strikes self !! strike_id) as [st|]; simpl; [|discriminate].
  destruct (st !! "distance") as [raw|] eqn:Hraw; simpl; [|discriminate].
  destruct (truediv raw 1000) as [f|e] eqn:Hdiv; simpl; [|discriminate].
  destruct (st !! "lat") as [la|] eqn:Hla; simpl; [|discriminate].
  destruct (st !! "long") as [lo|] eqn:Hlo; simpl; [|discriminate].
  destruct (st !! "date") as [da|] eqn:Hda; simpl; [|discriminate].
  intros _. exists st. split; [reflexivity|].
  split; [exists raw, f; split; assumption|].
  rewrite Hla, Hlo, Hda. repeat split; eexists; reflexivity.
Qed.

Lemma collect_all_return {A B : Type} (f : A -> outcome B) (l : list A) (bs : list B) :
  collect (map f l) = Return bs ->
  forall i, In i l -> exists b, f i = Return b.
Proof.
  revert bs. induction l as [|j l IH]; simpl; intros bs Hc i Hi; [destruct Hi|].
  destruct (f j) as [b0|e] eqn:Hfj; [|discriminate].
  destruct (collect (map f l)) as [bs0|e]; [|discriminate].
  destruct Hi as [<-|Hi]; [exists b0; exact Hfj | exact (IH bs0 eq_refl i Hi)].
Qed.

(** A cycle on a fetched response returns exactly when every strike it has
    to create (a fetched id that is not yet known) has its four fields and
    a distance that divides; the strikes of ids already known are not
    looked at. *)
Theorem cycle_returns_iff (s : snapshot) (self : t) :
  outcome_of (async_update (Fetched s) self) = Return tt
  <-> (forall i st, s !! i = Some st -> i ∉ _managed_strike_ids self -> strike_ok st).
Proof.
  rewrite async_update_fetched. split.
  - destruct (collect _) as [evs|e] eqn:Hc; [intros _ | discriminate].
    intros i st Hst Hnew.
    destruct (collect_all_return _ _ _ Hc i) as [ev Hev].
    { apply In_elements, elem_of_difference. split; [|exact Hnew].
      apply elem_of_dom. exists st. exact Hst. }
    apply new_event_strike_ok in Hev as (st' & Hst' & Hok).
    cbn [_strikes set_strikes] in Hst'. rewrite Hst in Hst'.
    injection Hst' as <-. exact Hok.
  - intros Hall.
    destruct (collect_returns
                (fun i => outcome_of (new_event i (set_strikes s self)))
                (elements (dom s ∖ _managed_strike_ids self))) as [evs ->];
      [|reflexivity].
    intros i Hi. apply In_elements, elem_of_difference in Hi as [Hi Hnew].
    apply elem_of_dom in Hi as [st Hst].
    exact (new_event_returns i (set_strikes s self) st Hst (Hall i st Hst Hnew)).
Qed.

Lemma cycle_signals (s : snapshot) (self : t) :
  signals_sent (trace_of (async_update (Fetched s) self))
  = map SIGNAL_DELETE_ENTITY (elements (_managed_strike_ids self ∖ dom s)).
Proof.
  rewrite async_update_fetched.
  destruct (collect _) as [evs|e]; unfold trace_of; cbn [fst snd].
  - unfold signals_sent. rewrite omap_app.
    fold (signals_sent (cycle_prefix self (dom s))).
    rewrite signals_sent_prefix. cbn [omap]. apply app_nil_r.
  - apply signals_sent_prefix.
Qed.

(** A call that raises, for whatever reason, registers no entity and leaves
    the known ids as they were. When the provider had answered, the
    snapshot has nevertheless been replaced and the removal signals of the
    diff have been sent; when the provider call itself raised, the manager
    is untouched. *)
Theorem raising_call_keeps_known_ids (answer : fetch_result) (self : t) (e : exn)
    (Hraise : outcome_of (async_update answer self) = Raise e) :
  let run := async_update answer self in
  _managed_strike_ids (state_of run) = _managed_strike_ids self
  /\ batches_added (trace_of run) = []
  /\ match answer with
     | Fetched s =>
         _strikes (state_of run) = s
         /\ signals_sent (trace_of run)
            = map SIGNAL_DELETE_ENTITY (elements (_managed_strike_ids self ∖ dom s))
     | FetchFailed _ => state_of run = self /\ signals_sent (trace_of run) = []
     end.
Proof.
  destruct answer as [s|e'].
  - cbn zeta. split; [|split; [|split; [|apply cycle_signals]]];
      revert Hraise; rewrite async_update_fetched;
      destruct (collect _) as [evs|e0]; try discriminate; intros _;
      try reflexivity.
    apply batches_added_prefix.
  - cbn zeta. rewrite async_update_failed. repeat split; reflexivity.
Qed.

Lemma raising_call_keeps_known_ids_witness :
  let known := state_of (async_update (Fetched response_A_B) oslo) in
  let run := async_update (Fetched response_B_bad) known in
  _managed_strike_ids (state_of run) = {[ "A"; "B" ]}
  /\ batches_added (trace_of run) = []
  /\ _strikes (state_of run) = response_B_bad
  /\ signals_sent (trace_of run) = ["delete_entity_A"].
Proof.
  pose proof (raising_call_keeps_known_ids (Fetched response_B_bad)
                (state_of (async_update (Fetched response_A_B) oslo))
                (KeyError "distance")) as H.
  destruct H as (Hk & Hb & Hs & Hsig); [vm_compute; reflexivity|].
  cbn zeta. rewrite Hk, Hb, Hs, Hsig. repeat split; vm_compute; reflexivity.
Defined.

(** ** The side effects of a cycle, exactly *)

Lemma SIGNAL_DELETE_ENTITY_inj (i j : string) :
  SIGNAL_DELETE_ENTITY i = SIGNAL_DELETE_ENTITY j -> i = j.
Proof.
  unfold SIGNAL_DELETE_ENTITY. intros H.
  injection H as H. simpl in H. exact H.
Qed.

Lemma NoDup_map_inj {A B : Type} (f : A -> B) (l : list A) :
  (forall x y, f x = f y -> x = y) -> NoDup l -> NoDup (map f l).
Proof.
  intros Hinj Hnd. induction Hnd as [|x l Hx Hnd IH]; simpl; constructor.
  - rewrite list_elem_of_In, in_map_iff. intros (y & Hxy & Hy).
    apply Hinj in Hxy as ->. apply Hx, list_elem_of_In, Hy.
  - exact IH.
Qed.

Lemma cycle_signal_iff (s : snapshot) (self : t) (i : string) :
  In (SIGNAL_DELETE_ENTITY i) (signals_sent (trace_of (async_update (Fetched s) self)))
  <-> i ∈ _managed_strike_ids self /\ i ∉ dom s.
Proof.
  rewrite cycle_signals, in_map_iff. split.
  - intros (j & Hj & Hin). apply SIGNAL_DELETE_ENTITY_inj in Hj as ->.
    apply In_elements, elem_of_difference in Hin. exact Hin.
  - intros Hi. exists i. split; [reflexivity|].
    apply In_elements, elem_of_difference. exact Hi.
Qed.

(** In every cycle whose fetch returned, the removal signals sent are those
    of the ids that were known and are absent from the response: one
    signal per such id, none twice, and none for any other id. *)
Theorem removal_signals_exact (s : snapshot) (self : t) :
  let sent := signals_sent (trace_of (async_update (Fetched s) self)) in
  NoDup sent
  /\ (forall sig, In sig sent ->
        exists i, sig = SIGNAL_DELETE_ENTITY i
                  /\ i ∈ _managed_strike_ids self /\ i ∉ dom s)
  /\ (forall i, In (SIGNAL_DELETE_ENTITY i) sent
                <-> i ∈ _managed_strike_ids self /\ i ∉ dom s).
Proof.
  cbn zeta. rewrite cycle_signals. split; [|split].
  - apply NoDup_map_inj; [exact SIGNAL_DELETE_ENTITY_inj | apply NoDup_elements].
  - intros sig Hsig. apply in_map_iff in Hsig as (i & <- & Hi).
    exists i. split; [reflexivity|].
    apply In_elements, elem_of_difference in Hi. exact Hi.
  - intros i. rewrite <- cycle_signals. apply cycle_signal_iff.
Qed.

Lemma created_ids_in_order (ids : list string) (events : list MetLightningEvent.t)
    (self : t) :
  Forall2 (fun i ev => outcome_of (new_event i self) = Return ev) ids events ->
  map MetLightningEvent._strike_id events = ids.
Proof.
  induction 1 as [|i ev ids events Hev _ IH]; simpl; [reflexivity|].
  apply new_event_inv in Hev as (_ & _ & _ & _ & _ & ->). f_equal. exact IH.
Qed.

(** A cycle that returns registers exactly one batch; the batch holds one
    event per fetched id that was not known before, no id twice, and no
    event for an id that was already known. *)
Theorem created_batch_exact (s : snapshot) (self : t)
    (Hret : outcome_of (async_update (Fetched s) self) = Return tt) :
  exists events,
    batches_added (trace_of (async_update (Fetched s) self)) = [events]
    /\ NoDup (map MetLightningEvent._strike_id events)
    /\ (forall i, In i (map MetLightningEvent._strike_id events)
                  <-> i ∈ dom s /\ i ∉ _managed_strike_ids self).
Proof.
  destruct (created_events_ids s self Hret) as (events & Hbatch & Hall).
  exists events. split; [exact Hbatch|].
  rewrite (created_ids_in_order _ _ _ Hall). split; [apply NoDup_elements|].
  intros i. rewrite In_elements. apply elem_of_difference.
Qed.

Lemma created_batch_exact_witness :
  exists events,
    batches_added (trace_of (async_update (Fetched response_B_C)
                               (state_of (async_update (Fetched response_A_B) oslo))))
    = [events]
    /\ NoDup (map MetLightningEvent._strike_id events)
    /\ (forall i, In i (map MetLightningEvent._strike_id events)
                  <-> i ∈ dom response_B_C
                      /\ i ∉ _managed_strike_ids
                             (state_of (async_update (Fetched response_A_B) oslo))).
Proof.
  apply (created_batch_exact response_B_C
           (state_of (async_update (Fetched response_A_B) oslo))).
  vm_compute. reflexivity.
Defined.

Lemma new_event_fields (strike_id : string) (self : t) (ev : MetLightningEvent.t) :
  outcome_of (new_event strike_id self) = Return ev ->
  exists st,
    _strikes self !! strike_id = Some st
    /\ st !! "lat" = Some (MetLightningEvent.latitude ev)
    /\ st !! "long" = Some (MetLightningEvent.longitude ev)
    /\ st !! "date" = Some (MetLightningEvent._publication_date ev)
    /\ MetLightningEvent._strike_id ev = strike_id
    /\ MetLightningEvent._remove_signal_delete ev = None.
Proof.
  unfold new_event, bind, get, lift, ret, getitem, outcome_of; simpl.
  destruct (_strikes self !! strike_id) as [st|]; simpl; [|discriminate].
  destruct (st !! "distance") as [raw|]; simpl; [|discriminate].
  destruct (truediv raw 1000) as [f|e]; simpl; [|discriminate].
  destruct (st !! "lat") as [la|] eqn:Hla; simpl; [|discriminate].
  destruct (st !! "long") as [lo|] eqn:Hlo; simpl; [|discriminate].
  destruct (st !! "date") as [da|] eqn:Hda; simpl; [|discriminate].
  intros [= <-]. exists st. repeat split; assumption.
Qed.

(** Every event a cycle registers shows the data of the fetched strike of
    its id: latitude, longitude, the name built from the id, and an
    attribute bag with the id as external id and the strike's date as
    publication date; it is not yet subscribed to any signal. *)
Theorem created_event_shows_its_strike (ATTR_ATTRIBUTION : string)
    (s : snapshot) (self : t)
    (events : list MetLightningEvent.t) (ev : MetLightningEvent.t)
    (Hadd : In events (batches_added (trace_of (async_update (Fetched s) self))))
    (Hev : In ev events)
    (Hkey : ATTR_ATTRIBUTION <> ATTR_EXTERNAL_ID) :
  exists i st,
    s !! i = Some st
    /\ (i ∉ _managed_strike_ids self)
    /\ st !! "lat" = Some (MetLightningEvent.latitude ev)
    /\ st !! "long" = Some (MetLightningEvent.longitude ev)
    /\ MetLightningEvent.name ev = "Lightning Strike: " +:+ i
    /\ device_state_attributes ATTR_ATTRIBUTION ev !! "external_id" = Some (VStr i)
    /\ device_state_attributes ATTR_ATTRIBUTION ev !! "publication_date" = st !! "date"
    /\ MetLightningEvent._remove_signal_delete ev = None.
Proof.
  rewrite async_update_fetched in Hadd.
  destruct (collect _) as [evs|e] eqn:Hc; unfold trace_of in Hadd; cbn [fst snd] in Hadd.
  - unfold batches_added in Hadd. rewrite omap_app in Hadd.
    fold (batches_added (cycle_prefix self (dom s))) in Hadd.
    rewrite batches_added_prefix in Hadd. destruct Hadd as [<-|[]].
    destruct (collect_inv _ _ _ Hc ev Hev) as (i & Hi & Hnew).
    apply In_elements, elem_of_difference in Hi as [_ Hi].
    apply new_event_fields in Hnew as (st & Hst & Hla & Hlo & Hda & Hid & Hsub).
    exists i, st. cbn [_strikes set_strikes] in Hst.
    split; [exact Hst|]. split; [exact Hi|]. split; [exact Hla|].
    split; [exact Hlo|]. split; [unfold MetLightningEvent.name; rewrite Hid; reflexivity|].
    unfold device_state_attributes, ATTR_EXTERNAL_ID, ATTR_PUBLICATION_DATE in *.
    split; [|split; [|exact Hsub]].
    + rewrite lookup_insert_ne by discriminate.
      rewrite lookup_insert_ne by exact Hkey.
      rewrite lookup_insert_eq, Hid. reflexivity.
    + rewrite lookup_insert_eq, Hda. reflexivity.
  - rewrite batches_added_prefix in Hadd. destruct Hadd.
Qed.

Lemma created_event_shows_its_strike_witness :
  exists i st,
    response_S1 !! i = Some st
    /\ (i ∉ _managed_strike_ids oslo)
    /\ st !! "lat" = Some (MetLightningEvent.latitude event_S1)
    /\ st !! "long" = Some (MetLightningEvent.longitude event_S1)
    /\ MetLightningEvent.name event_S1 = "Lightning Strike: " +:+ i
    /\ device_state_attributes "attribution" event_S1 !! "external_id" = Some (VStr i)
    /\ device_state_attributes "attribution" event_S1 !! "publication_date" = st !! "date"
    /\ MetLightningEvent._remove_signal_delete event_S1 = None.
Proof.
  apply (created_event_shows_its_strike "attribution" response_S1 oslo [event_S1] event_S1).
  - left. vm_compute. reflexivity.
  - left. reflexivity.
  - discriminate.
Defined.

(** When a cycle raises after the provider answered, calling the cycle
    again on the same response sends the same removal signals a second
    time and raises again without registering an entity: the known ids
    were not updated by the call that raised. (Which malformed strike the
    second call meets first is a matter of iteration order and is not
    claimed.) *)
Theorem retry_repeats_removal_signals (s : snapshot) (self : t) (e : exn)
    (Hraise : outcome_of (async_update (Fetched s) self) = Raise e) :
  let first := async_update (Fetched s) self in
  let second := async_update (Fetched s) (state_of first) in
  signals_sent (trace_of second) = signals_sent (trace_of first)
  /\ raised (outcome_of second)
  /\ batches_added (trace_of second) = []
  /\ _managed_strike_ids (state_of second) = _managed_strike_ids self.
Proof.
  cbn zeta. rewrite !cycle_signals.
  revert Hraise. rewrite async_update_fetched.
  destruct (collect _) as [evs|e0] eqn:Hc; [discriminate|]. intros _.
  unfold state_of; cbn [fst snd]. split; [reflexivity|].
  rewrite async_update_fetched. cbn [_managed_strike_ids set_strikes].
  replace (set_strikes s (set_strikes s self)) with (set_strikes s self) by reflexivity.
  rewrite Hc. unfold outcome_of, trace_of; cbn [fst snd].
  split; [exact I|]. split; [apply batches_added_prefix | reflexivity].
Qed.

Lemma retry_repeats_removal_signals_witness :
  let known := state_of (async_update (Fetched response_A_B) oslo) in
  let first := async_update (Fetched response_B_bad) known in
  signals_sent (trace_of (async_update (Fetched response_B_bad) (state_of first)))
  = signals_sent (trace_of first)
  /\ raised (outcome_of (async_update (Fetched response_B_bad) (state_of first))).
Proof.
  pose proof (retry_repeats_removal_signals response_B_bad
                (state_of (async_update (Fetched response_A_B) oslo))
                (KeyError "distance")) as H.
  destruct H as (Hs & Hr & _); [vm_compute; reflexivity|].
  split; assumption.
Defined.

(** ** Starting the polling *)

Lemma cycle_registers_no_timer (answer : fetch_result) (self : t) :
  timers_registered (trace_of (async_update answer self)) = [].
Proof.
  destruct answer as [s|e]; [|reflexivity].
  assert (Hprefix : timers_registered (cycle_prefix self (dom s)) = []).
  { unfold timers_registered, cycle_prefix. rewrite !omap_app.
    rewrite omap_sends by reflexivity. reflexivity. }
  rewrite async_update_fetched.
  destruct (collect _) as [evs|e]; unfold trace_of; cbn [fst snd]; [|exact Hprefix].
  unfold timers_registered. rewrite omap_app.
  fold (timers_registered (cycle_prefix self (dom s))). rewrite Hprefix. reflexivity.
Qed.

(** [async_init] registers the five-minute timer once, as its last call,
    when its first cycle returns, and leaves the manager as that cycle left
    it; when the first cycle raises, for whatever reason, [async_init]
    raises the same exception after the same calls and registers no timer. *)
Theorem async_init_registers_timer_after_first_cycle (answer : fetch_result) (self : t) :
  let first := async_update answer self in
  let init := async_init answer self in
  state_of init = state_of first
  /\ match outcome_of first with
     | Return _ =>
         trace_of init = trace_of first ++ [TrackTimeInterval 5]
         /\ timers_registered (trace_of init) = [5]
         /\ outcome_of init = Return tt
     | Raise e =>
         trace_of init = trace_of first
         /\ timers_registered (trace_of init) = []
         /\ outcome_of init = Raise e
     end.
Proof.
  cbn zeta. pose proof (cycle_registers_no_timer answer self) as Hno.
  unfold async_init, bind.
  destruct (async_update answer self) as [[self1 tr] [[]|e]];
    unfold state_of, trace_of, outcome_of, emit in *; cbn [fst snd] in *.
  - split; [reflexivity|]. split; [reflexivity|]. split; [|reflexivity].
    unfold timers_registered in *. rewrite omap_app, Hno. reflexivity.
  - split; [reflexivity|]. split; [reflexivity|]. split; [exact Hno | reflexivity].
Qed.

(** ** Several calls on one manager *)

Lemma cycle_keeps_configuration (answer : fetch_result) (self : t) :
  _latitude (state_of (async_update answer self)) = _latitude self
  /\ _longitude (state_of (async_update answer self)) = _longitude self
  /\ _radius (state_of (async_update answer self)) = _radius self.
Proof.
  destruct answer as [s|e]; [|repeat split; reflexivity].
  rewrite async_update_fetched. destruct (collect _); repeat split; reflexivity.
Qed.

(** However many times the cycle is called and however the calls end, the
    manager keeps the origin and the radius it was constructed with. *)
Theorem calls_keep_origin_and_radius (answers : list fetch_result) (self : t) :
  let final := (async_updates answers self).1 in
  _latitude final = _latitude self
  /\ _longitude final = _longitude self
  /\ _radius final = _radius self.
Proof.
  cbn zeta. revert self. induction answers as [|answer rest IH]; intros self.
  - repeat split; reflexivity.
  - cbn [async_updates].
    destruct (IH (state_of (async_update answer self))) as (Hla & Hlo & Hr).
    destruct (cycle_keeps_configuration answer self) as (Hla1 & Hlo1 & Hr1).
    destruct (async_updates rest (state_of (async_update answer self))) as [final ends].
    cbn [fst] in *. rewrite Hla, Hlo, Hr, Hla1, Hlo1, Hr1. repeat split; reflexivity.
Qed.

Lemma raising_call_known_ids (answer : fetch_result) (self : t) :
  raised (outcome_of (async_update answer self)) ->
  _managed_strike_ids (state_of (async_update answer self)) = _managed_strike_ids self.
Proof.
  destruct answer as [s|e]; [|reflexivity].
  rewrite async_update_fetched. destruct (collect _); [intros [] | reflexivity].
Qed.

Lemma returning_call_known_ids (s : snapshot) (self : t) :
  outcome_of (async_update (Fetched s) self) = Return tt ->
  _managed_strike_ids (state_of (async_update (Fetched s) self)) = dom s.
Proof.
  rewrite async_update_fetched. destruct (collect _); [reflexivity | discriminate].
Qed.

(** After a call that returned on a response, any number of further calls
    that all raise (failed fetches or malformed strikes) leave the known
    ids equal to the ids of that response. *)
Theorem known_ids_are_those_of_last_returned_call (s : snapshot)
    (later : list fetch_result) (self : t)
    (Hret : outcome_of (async_update (Fetched s) self) = Return tt)
    (Hlater : Forall raised
                (async_updates later (state_of (async_update (Fetched s) self))).2) :
  _managed_strike_ids
    (async_updates later (state_of (async_update (Fetched s) self))).1
  = dom s.
Proof.
  rewrite <- (returning_call_known_ids s self Hret).
  generalize (state_of (async_update (Fetched s) self)) Hlater. clear.
  induction later as [|answer rest IH]; intros self Hlater; [reflexivity|].
  cbn [async_updates] in *.
  specialize (IH (state_of (async_update answer self))).
  destruct (async_updates rest (state_of (async_update answer self))) as [final ends].
  cbn [fst snd] in *. apply Forall_cons in Hlater as [Hraised Hrest].
  rewrite (IH Hrest). apply raising_call_known_ids, Hraised.
Qed.

Lemma known_ids_are_those_of_last_returned_call_witness :
  _managed_strike_ids
    (async_updates [timeout; Fetched response_B_bad; timeout]
       (state_of (async_update (Fetched response_A_B) oslo))).1
  = dom response_A_B.
Proof.
  apply (known_ids_are_those_of_last_returned_call response_A_B
           [timeout; Fetched response_B_bad; timeout] oslo).
  - vm_compute. reflexivity.
  - vm_compute. repeat constructor.
Defined.

(** ** From creation to removal *)

(** An event registered by a returning cycle and then attached to the host
    listens on the signal of its own id. The next call of the cycle sends
    that signal exactly when the id is absent from the next response, and
    the callback then cancels that very subscription and asks for the
    removal of the entity. *)
Theorem event_is_removed_when_its_strike_is_gone (s1 s2 : snapshot) (self : t)
    (events : list MetLightningEvent.t) (ev : MetLightningEvent.t)
    (Hadd : In events (batches_added (trace_of (async_update (Fetched s1) self))))
    (Hev : In ev events) :
  let attached := (async_added_to_hass ev).1 in
  let channel := SIGNAL_DELETE_ENTITY (MetLightningEvent._strike_id ev) in
  let next := async_update (Fetched s2) (state_of (async_update (Fetched s1) self)) in
  (async_added_to_hass ev).2 = [DispatcherConnect channel]
  /\ (In channel (signals_sent (trace_of next))
      <-> MetLightningEvent._strike_id ev ∉ dom s2)
  /\ _delete_callback attached
     = ([CallUnsubscribe channel;
         CreateTaskAsyncRemove (MetLightningEvent._strike_id ev)], Return tt).
Proof.
  cbn zeta. split; [reflexivity|]. split; [|reflexivity].
  rewrite cycle_signal_iff.
  assert (Hknown : MetLightningEvent._strike_id ev
                   ∈ _managed_strike_ids (state_of (async_update (Fetched s1) self))).
  { rewrite async_update_fetched in Hadd |- *.
    destruct (collect _) as [evs|e] eqn:Hc; unfold trace_of in Hadd; cbn [fst snd] in Hadd.
    - unfold batches_added in Hadd. rewrite omap_app in Hadd.
      fold (batches_added (cycle_prefix self (dom s1))) in Hadd.
      rewrite batches_added_prefix in Hadd. destruct Hadd as [<-|[]].
      destruct (collect_inv _ _ _ Hc ev Hev) as (i & Hi & Hnew).
      apply new_event_inv in Hnew as (_ & _ & _ & _ & _ & ->).
      apply In_elements, elem_of_difference in Hi as [Hi _]. exact Hi.
    - rewrite batches_added_prefix in Hadd. destruct Hadd. }
  split; [intros [_ H]; exact H | intros H; split; [exact Hknown | exact H]].
Qed.

Lemma event_is_removed_when_its_strike_is_gone_witness :
  In (SIGNAL_DELETE_ENTITY (MetLightningEvent._strike_id event_S1))
     (signals_sent (trace_of (async_update (Fetched response_S2)
                                (state_of (async_update (Fetched response_S1) oslo)))))
  <-> MetLightningEvent._strike_id event_S1 ∉ dom response_S2.
Proof.
  apply (event_is_removed_when_its_strike_is_gone response_S1 response_S2 oslo
           [event_S1] event_S1).
  - left. vm_compute. reflexivity.
  - left. reflexivity.
Defined.

(** Delivered to an event that was never attached, the removal callback
    raises before it asks for anything: events leave [__init__], and so the
    cycle, without a subscription handle. *)
Theorem delete_callback_needs_attachment (s : snapshot) (self : t)
    (events : list MetLightningEvent.t) (ev : MetLightningEvent.t)
    (Hadd : In events (batches_added (trace_of (async_update (Fetched s) self))))
    (Hev : In ev events) :
  _delete_callback ev = ([], Raise TypeError).
Proof.
  assert (Hnone : MetLightningEvent._remove_signal_delete ev = None).
  { rewrite async_update_fetched in Hadd.
    destruct (collect _) as [evs|e] eqn:Hc; unfold trace_of in Hadd; cbn [fst snd] in Hadd.
    - unfold batches_added in Hadd. rewrite omap_app in Hadd.
      fold (batches_added (cycle_prefix self (dom s))) in Hadd.
      rewrite batches_added_prefix in Hadd. destruct Hadd as [<-|[]].
      destruct (collect_inv _ _ _ Hc ev Hev) as (i & _ & Hnew).
      apply new_event_fields in Hnew as (_ & _ & _ & _ & _ & _ & H). exact H.
    - rewrite batches_added_prefix in Hadd. destruct Hadd. }
  unfold _delete_callback. rewrite Hnone. reflexivity.
Qed.

Lemma delete_callback_needs_attachment_witness :
  _delete_callback event_S1 = ([], Raise TypeError).
Proof.
  apply (delete_callback_needs_attachment response_S1 oslo [event_S1] event_S1).
  - left. vm_compute. reflexivity.
  - left. reflexivity.
Defined.

(** ** Setup, continued *)

Lemma async_init_unfold (answer : fetch_result) (self : t) :
  async_init answer self
  = match outcome_of (async_update answer self) with
    | Return _ =>
        (state_of (async_update answer self),
         trace_of (async_update answer self) ++ [TrackTimeInterval 5], Return tt)
    | Raise e =>
        (state_of (async_update answer self),
         trace_of (async_update answer self), Raise e)
    end.
Proof.
  unfold async_init, bind.
  destruct (async_update answer self) as [[self1 tr] [[]|e]]; reflexivity.
Qed.

(** With a positive radius, the track-home option absent or false, and an
    entry that lacks its latitude or its longitude, setup raises a
    [KeyError] before it constructs the manager: nothing is fetched and no
    timer is registered. *)
Theorem setup_needs_entry_coordinates (hass : HassConfig) (entry : ConfigEntryData)
    (answer : fetch_result)
    (Hradius : 0 < CONF_RADIUS entry)
    (Hoff : CONF_TRACK_HOME entry = None \/ CONF_TRACK_HOME entry = Some false)
    (Hmissing : CONF_LATITUDE entry = None \/ CONF_LONGITUDE entry = None) :
  exists key, async_setup_entry hass entry answer = (None, [], Raise (KeyError key)).
Proof.
  unfold async_setup_entry.
  replace (CONF_RADIUS entry <=? 0) with false by (symmetry; apply Z.leb_gt; exact Hradius).
  assert (Hflag : default false (CONF_TRACK_HOME entry) = false)
    by (destruct Hoff as [-> | ->]; reflexivity).
  rewrite Hflag.
  destruct (CONF_LATITUDE entry) as [lat|]; cbn [entry_getitem].
  - destruct Hmissing as [Hl | Hl]; [discriminate Hl|]. rewrite Hl.
    eexists; reflexivity.
  - eexists; reflexivity.
Qed.

Lemma setup_needs_entry_coordinates_witness :
  exists key,
    async_setup_entry home entry_without_origin (Fetched response_S1)
    = (None, [], Raise (KeyError key)).
Proof.
  apply (setup_needs_entry_coordinates home entry_without_origin (Fetched response_S1)).
  - reflexivity.
  - right. reflexivity.
  - left. reflexivity.
Defined.

Lemma setup_constructed (hass : HassConfig) (entry : ConfigEntryData)
    (answer : fetch_result) (manager : t) :
  state_of (async_setup_entry hass entry answer) = Some manager ->
  exists lat lon,
    async_setup_entry hass entry answer
    = (let '(m, tr, r) := async_init answer (__init__ lat lon (CONF_RADIUS entry)) in
       (Some m, tr, r)).
Proof.
  unfold async_setup_entry.
  destruct (CONF_RADIUS entry <=? 0); [discriminate|].
  destruct (default false (CONF_TRACK_HOME entry)).
  - intros _. eexists _, _. reflexivity.
  - destruct (CONF_LATITUDE entry) as [lat|]; cbn [entry_getitem]; [|discriminate].
    destruct (CONF_LONGITUDE entry) as [lon|]; [|discriminate].
    intros _. eexists _, _. reflexivity.
Qed.

(** When setup constructs the manager, what follows depends on the first
    fetch. If it fails, setup raises that exception, no timer is
    registered (the manager never polls) and nothing is known. If it
    returns well-formed strikes, setup returns, the timer is registered
    once, one event per fetched strike is registered and the fetched ids
    are the known ids. *)
Theorem setup_outcome_follows_first_fetch (hass : HassConfig) (entry : ConfigEntryData)
    (answer : fetch_result) (manager : t)
    (Hmanager : state_of (async_setup_entry hass entry answer) = Some manager) :
  let run := async_setup_entry hass entry answer in
  match answer with
  | FetchFailed e =>
      outcome_of run = Raise e
      /\ timers_registered (trace_of run) = []
      /\ batches_added (trace_of run) = []
      /\ _managed_strike_ids manager = ∅
  | Fetched s =>
      map_Forall (fun _ st => strike_ok st) s ->
      outcome_of run = Return tt
      /\ timers_registered (trace_of run) = [5]
      /\ _managed_strike_ids manager = dom s
      /\ exists events,
           batches_added (trace_of run) = [events]
           /\ (forall i, In i (map MetLightningEvent._strike_id events) <-> i ∈ dom s)
  end.
Proof.
  cbn zeta. destruct (setup_constructed _ _ _ _ Hmanager) as (lat & lon & Hrun).
  rewrite Hrun in Hmanager |- *. clear Hrun.
  set (m0 := __init__ lat lon (CONF_RADIUS entry)) in *.
  rewrite async_init_unfold in Hmanager |- *.
  pose proof (cycle_registers_no_timer answer m0) as Hno.
  destruct answer as [s|e].
  - intros Hok. pose proof (cycle_returns s m0 Hok) as Hret.
    destruct (created_events_ids s m0 Hret) as (events & Hbatch & Hall).
    pose proof (returning_call_known_ids s m0 Hret) as Hknown.
    rewrite Hret in Hmanager |- *.
    unfold state_of, trace_of, outcome_of in *; cbn [fst snd] in *.
    injection Hmanager as <-.
    split; [reflexivity|]. split.
    { unfold timers_registered in *. rewrite omap_app, Hno. reflexivity. }
    split; [exact Hknown|].
    exists events. split.
    { unfold batches_added in *. rewrite omap_app, Hbatch. reflexivity. }
    intros i. rewrite (created_ids_in_order _ _ _ Hall), In_elements.
    cbn [_managed_strike_ids __init__ m0].
    rewrite elem_of_difference. split; [intros [H _]; exact H|].
    intros H. split; [exact H | apply not_elem_of_empty].
  - rewrite async_update_failed in Hmanager, Hno |- *.
    unfold state_of, trace_of, outcome_of in *; cbn [fst snd] in *.
    injection Hmanager as <-. repeat split; reflexivity.
Qed.

Lemma setup_outcome_follows_first_fetch_witness :
  (outcome_of (async_setup_entry home entry_tracking_home timeout)
   = Raise (ProviderError "timeout")
   /\ timers_registered (trace_of (async_setup_entry home entry_tracking_home timeout)) = []
   /\ batches_added (trace_of (async_setup_entry home entry_tracking_home timeout)) = []
   /\ _managed_strike_ids (__init__ 59.5%float 10.75%float 25) = ∅)
  /\ outcome_of (async_setup_entry home entry_elsewhere (Fetched response_S1)) = Return tt.
Proof.
  split.
  - apply (setup_outcome_follows_first_fetch home entry_tracking_home timeout
             (__init__ 59.5%float 10.75%float 25)).
    vm_compute. reflexivity.
  - assert (Hm : exists m, state_of (async_setup_entry home entry_elsewhere
                                       (Fetched response_S1)) = Some m)
      by (vm_compute; eexists; reflexivity).
    destruct Hm as [m Hm].
    apply (setup_outcome_follows_first_fetch home entry_elsewhere
             (Fetched response_S1) m Hm).
    intros i st Hst. unfold response_S1 in Hst.
    apply lookup_singleton_Some in Hst as [_ <-].
    split; [exists (VInt 12345), 12.345%float; split; vm_compute; reflexivity|].
    repeat split; eexists; vm_compute; reflexivity.
Defined.

(** ** Strikes that stay *)

(** A cycle whose response has exactly the known ids sends no signal and
    registers an empty batch, whatever the strikes of the response now
    hold: the event of a known strike is neither replaced nor updated, and
    the fields of a known strike are not even read. *)
Theorem known_strikes_are_not_refreshed (s : snapshot) (self : t)
    (Hsame : dom s = _managed_strike_ids self) :
  let run := async_update (Fetched s) self in
  outcome_of run = Return tt
  /\ signals_sent (trace_of run) = []
  /\ batches_added (trace_of run) = [[]]
  /\ _managed_strike_ids (state_of run) = _managed_strike_ids self
  /\ _strikes (state_of run) = s.
Proof.
  cbn zeta. rewrite cycle_signals, async_update_fetched, <- Hsame.
  rewrite difference_diag_L, elements_empty. cbn [map collect].
  unfold outcome_of, trace_of, state_of; cbn [fst snd].
  split; [reflexivity|]. split; [reflexivity|]. split; [|split; reflexivity].
  unfold batches_added. rewrite omap_app.
  fold (batches_added (cycle_prefix self (dom s))).
  rewrite batches_added_prefix. reflexivity.
Qed.

Lemma known_strikes_are_not_refreshed_witness :
  let known := state_of (async_update (Fetched response_S1) oslo) in
  let run := async_update (Fetched {[ "S1" := ∅ ]}) known in
  outcome_of run = Return tt
  /\ signals_sent (trace_of run) = []
  /\ batches_added (trace_of run) = [[]].
Proof.
  pose proof (known_strikes_are_not_refreshed {[ "S1" := ∅ ]}
                (state_of (async_update (Fetched response_S1) oslo))) as H.
  destruct H as (Ho & Hs & Hb & _); [vm_compute; reflexivity|].
  repeat split; assumption.
Defined.
